(** * Verification of [apps/admin-api/scripts/create-structure.py]

    The script creates a fixed manifest of directories under a base
    directory derived from its own location and prints how many it
    processed.  This development embeds the script, together with the part
    of [pathlib] and of the POSIX filesystem it relies on, and proves the
    properties of the scaffolding run.

    Modelling choices.  A path is the list of its components; there are no
    symbolic links, and [..] is an ordinary component (the manifest has
    none).  The filesystem is a finite map from absolute paths to nodes,
    resolved one component at a time as the kernel does, so that an entry
    below a missing directory or below a file cannot be reached.  Whether
    the process may add an entry to a directory is an oracle, [may_create],
    fixed for the length of a run.  Standard output is the list of the
    lines printed.  Left out of the model: a [print] that fails (a
    standard output that cannot encode the line or is closed), the errors
    of [os.mkdir] other than the four below (a name too long, no space, a
    read-only filesystem), and search permission on the directories above
    a path.  The theorems speak of the runs in which none of these occurs.
    [Path.mkdir] is embedded as CPython defines it:

    <<
    def mkdir(self, mode=0o777, parents=False, exist_ok=False):
        try:
            os.mkdir(self, mode)
        except FileNotFoundError:
            if not parents or self.parent == self:
                raise
            self.parent.mkdir(parents=True, exist_ok=True)
            self.mkdir(mode, parents=False, exist_ok=exist_ok)
        except OSError:
            if not exist_ok or not self.is_dir():
                raise
    >> *)

From Stdlib Require Import Ascii DecimalString.
From stdpp Require Import gmap strings list fin_maps.

(** * Pure paths

    An absolute POSIX path is the list of its components below the root;
    the root itself is the empty list.  A relative path (the result of
    [relative_to]) is a list of components as well. *)

Module PurePath.

Abbreviation path := (list string).

(** [str.split(sep)]: the pieces between the separators; never empty. *)
Fixpoint split_on (sep : ascii) (s : string) : list string :=
  match s with
  | EmptyString => [EmptyString]
  | String c s' =>
      if decide (c = sep) then EmptyString :: split_on sep s'
      else match split_on sep s' with
           | [] => [String c EmptyString]
           | piece :: pieces => String c piece :: pieces
           end
  end.

(** A string names an absolute path when it starts with a slash. *)
Definition is_absolute (s : string) : bool :=
  match s with
  | String c _ => bool_decide (c = "/"%char)
  | EmptyString => false
  end.

(** [pathlib] drops empty and ["."] components when it parses a string. *)
Definition parse_parts (s : string) : list string :=
  filter (λ c, c ≠ "" ∧ c ≠ ".") (split_on "/" s).

(** [base / s]: an absolute right operand replaces the base. *)
Definition truediv (base : path) (s : string) : path :=
  if is_absolute s then parse_parts s else base ++ parse_parts s.

(** [p.parent]: lexical; the parent of the root is the root. *)
Definition parent (p : path) : path := removelast p.


(** [p.relative_to(other)]: the components of [p] after [other], or
    nothing ([ValueError]) when [other] is not a leading part of [p]. *)
Fixpoint relative_to (p other : path) : option (list string) :=
  match other, p with
  | [], _ => Some p
  | o :: other', c :: p' =>
      if decide (c = o) then relative_to p' other' else None
  | _ :: _, [] => None
  end.

(** [str] of a relative path. *)
Definition str (parts : list string) : string :=
  match parts with
  | [] => "."
  | _ => String.concat "/" parts
  end.

End PurePath.
Import PurePath.

Notation "base // s" := (truediv base s) (at level 40, left associativity).

(** * The manifest *)

Definition DIRS : list string :=
  [ (* Presentation Layer *)
    "presentation/controllers";
    "presentation/dtos";
    "presentation/mappers";
    (* Application Layer *)
    "application/auth/use-cases";
    "application/auth/commands";
    "application/auth/queries";
    "application/auth/dtos";
    "application/users";
    "application/shared/interfaces";
    "application/shared/events";
    (* Domain Layer *)
    "domain/auth/entities";
    "domain/auth/value-objects";
    "domain/auth/services";
    "domain/auth/events";
    "domain/auth/repositories";
    "domain/users";
    "domain/roles";
    "domain/permissions";
    "domain/tenants";
    "domain/shared/events";
    "domain/shared/value-objects";
    (* Infrastructure Layer *)
    "infrastructure/persistence/typeorm/repositories";
    "infrastructure/persistence/typeorm/entities";
    "infrastructure/persistence/mappers";
    "infrastructure/events/handlers";
    "infrastructure/external" ].

(** * The filesystem and the state of a run *)

(** A node is a plain file with its contents or a directory.  The
    filesystem maps the absolute paths that exist to their nodes; the root
    always exists and is a directory. *)
Inductive node :=
  | File (data : string)
  | Dir.

Inductive exn :=
  | FileExistsError
  | FileNotFoundError
  | NotADirectoryError
  | PermissionError
  | ValueError.

(** The first four are subclasses of [OSError]. *)
Definition is_OSError (e : exn) : bool :=
  match e with
  | ValueError => false
  | _ => true
  end.

Record world := World {
  files : gmap path node;
  stdout : list string
}.

(** A computation ends by returning a value or by raising an exception;
    either way it leaves a world behind. *)
Inductive outcome (A : Type) :=
  | Returned (a : A) (w : world)
  | Raised (e : exn) (w : world).
Arguments Returned {A} a w.
Arguments Raised {A} e w.

Definition world_of {A} (o : outcome A) : world :=
  match o with
  | Returned _ w => w
  | Raised _ w => w
  end.

Definition succeeded {A} (o : outcome A) : bool :=
  match o with
  | Returned _ _ => true
  | Raised _ _ => false
  end.

Definition returned {A} (o : outcome A) : option A :=
  match o with
  | Returned a _ => Some a
  | Raised _ _ => None
  end.

Definition raised {A} (o : outcome A) : option exn :=
  match o with
  | Returned _ _ => None
  | Raised e _ => Some e
  end.

Definition M (A : Type) : Type := world → outcome A.

Definition ret {A} (a : A) : M A := λ w, Returned a w.

Definition bind {A B} (c : M A) (k : A → M B) : M B := λ w,
  match c w with
  | Returned a w' => k a w'
  | Raised e w' => Raised e w'
  end.

Definition raise {A} (e : exn) : M A := λ w, Raised e w.

(** The monad notations [x ← c; k] and [c ;; k] are those of stdpp. *)
Global Instance M_ret : MRet M := @ret.
Global Instance M_bind : MBind M := λ A B k c, bind c k.

(** [print(line)] *)
Definition print (line : string) : M unit := λ w,
  Returned tt {| files := files w; stdout := stdout w ++ [line] |}.

(** Path resolution, on the components in reverse (deepest first): resolve
    the parent, which has to be a directory, then look the last component
    up in it. *)
Fixpoint stat_rev (fs : gmap path node) (rp : list string) : node + exn :=
  match rp with
  | [] => inl Dir
  | _ :: rparent =>
      match stat_rev fs rparent with
      | inl Dir =>
          match fs !! reverse rp with
          | Some n => inl n
          | None => inr FileNotFoundError
          end
      | inl (File _) => inr NotADirectoryError
      | inr e => inr e
      end
  end.

Definition stat (fs : gmap path node) (p : path) : node + exn :=
  stat_rev fs (reverse p).

(** [Path.is_dir()]: false as well when the path cannot be resolved. *)
Definition is_dir (fs : gmap path node) (p : path) : bool :=
  match stat fs p with
  | inl Dir => true
  | _ => false
  end.

(** * Sample inputs *)

Definition sample_script : path :=
  ["repo"; "apps"; "admin-api"; "scripts"; "create-structure.py"].

Definition sample_base : path := ["repo"; "apps"; "admin-api"; "src"].

Definition permissive : path → bool := λ _, true.

(** A checkout in which [src] is missing; the same with a plain file where
    the manifest wants [src/presentation/mappers], and with one where it
    wants [src/presentation]. *)
Definition checkout : list (path * node) :=
  [ (["repo"], Dir);
    (["repo"; "apps"], Dir);
    (["repo"; "apps"; "admin-api"], Dir);
    (["repo"; "apps"; "admin-api"; "scripts"], Dir);
    (sample_script, File "#!/usr/bin/env python3") ].

Definition checkout_world : world :=
  {| files := list_to_map checkout; stdout := [] |}.

Definition mappers_file_world : world :=
  {| files := list_to_map
       (checkout ++ [ (sample_base, Dir);
                      (sample_base ++ ["presentation"], Dir);
                      (sample_base ++ ["presentation"; "mappers"],
                       File "notes") ]);
     stdout := [] |}.

Definition presentation_file_world : world :=
  {| files := list_to_map
       (checkout ++ [ (sample_base, Dir);
                      (sample_base ++ ["presentation"], File "notes") ]);
     stdout := [] |}.




Section Scaffolder.

(** The components of [Path(__file__)], the path of the script, absolute
    as Python 3.9 and later make it for the main module.  It is not
    normalised: started through a path with [..], the script sees the
    [..] in [__file__]. *)
Variable script_file : path.

(** Whether the operating system lets the process add an entry to the
    directory at a path (permissions, read-only mounts). *)
Variable may_create : path → bool.

(** [os.mkdir(p)]: [EEXIST] at the root and where the path exists,
    [ENOENT] or [ENOTDIR] where the directory above cannot be resolved or
    is a file, [EACCES] where it takes no new entry. *)
Definition os_mkdir (p : path) : M unit := λ w,
  match reverse p with
  | [] => Raised FileExistsError w
  | _ :: rparent =>
      match stat_rev (files w) rparent with
      | inr e => Raised e w
      | inl (File _) => Raised NotADirectoryError w
      | inl Dir =>
          match files w !! p with
          | Some _ => Raised FileExistsError w
          | None =>
              if may_create (reverse rparent)
              then Returned tt {| files := <[p:=Dir]> (files w);
                                  stdout := stdout w |}
              else Raised PermissionError w
          end
      end
  end.

(** The handler [except OSError] of [Path.mkdir]: the error is swallowed
    when [exist_ok] is set and the path is a directory. *)
Definition except_OSError (p : path) (exist_ok : bool) (e : exn) : M unit :=
  λ w, if negb exist_ok || negb (is_dir (files w) p)
       then Raised e w else Returned tt w.

(** [Path.mkdir(parents=False, exist_ok=exist_ok)] *)
Definition mkdir_flat (p : path) (exist_ok : bool) : M unit := λ w,
  match os_mkdir p w with
  | Returned _ w' => Returned tt w'
  | Raised FileNotFoundError w' => Raised FileNotFoundError w'
  | Raised e w' => except_OSError p exist_ok e w'
  end.

(** [Path.mkdir(parents, exist_ok)], by recursion on the reversed
    components: [self.parent] is the tail, and [self.parent == self]
    holds at the root only. *)
Fixpoint mkdir_rev (rp : list string) (parents exist_ok : bool) : M unit :=
  λ w,
  match os_mkdir (reverse rp) w with
  | Returned _ w' => Returned tt w'
  | Raised FileNotFoundError w' =>
      match rp with
      | [] => Raised FileNotFoundError w'
      | _ :: rparent =>
          if negb parents then Raised FileNotFoundError w'
          else (mkdir_rev rparent true true ;;
                mkdir_flat (reverse rp) exist_ok) w'
      end
  | Raised e w' => except_OSError (reverse rp) exist_ok e w'
  end.

Definition mkdir (p : path) (parents exist_ok : bool) : M unit :=
  mkdir_rev (reverse p) parents exist_ok.

(** * The script *)

(** [Path(__file__).parent.parent / "src"] *)
Definition BASE_DIR : path := parent (parent script_file) // "src".

Definition summary (n : nat) : string :=
  "成功创建 " +:+ NilZero.string_of_uint (Nat.to_uint n) +:+ " 个目录".

(** The body of the [for] loop of [create_dirs], over any base directory
    and manifest; [created] is the list built so far. *)
Fixpoint for_each (base : path) (dirs : list string) (created : list string)
  : M (list string) :=
  match dirs with
  | [] => ret created
  | dir_path :: dirs' =>
      let full_path := base // dir_path in
      mkdir full_path true true ;;
      match relative_to full_path (parent base) with
      | None => raise ValueError
      | Some rel => for_each base dirs' (created ++ [str rel])
      end
  end.

Definition scaffold (base : path) (dirs : list string) : M (list string) :=
  created ← for_each base dirs [];
  print (summary (length created)) ;;
  ret created.

Definition create_dirs : M (list string) := scaffold BASE_DIR DIRS.

(** * Auxiliary notions for the proofs *)

(** The non-root paths from [reverse rp] up to the top-level directory. *)
Fixpoint chain (rp : list string) : list path :=
  match rp with
  | [] => []
  | _ :: rparent => reverse rp :: chain rparent
  end.

(** The path itself and its ancestors, the root left out. *)
Definition prefixes (p : path) : list path := chain (reverse p).

(** Every path a run over [dirs] needs to be a directory. *)
Definition needed (base : path) (dirs : list string) : list path :=
  dirs ≫= λ d, prefixes (base // d).

Definition dirs_of (ps : list path) : gmap path node :=
  gset_to_gmap Dir (list_to_set ps).

(** A path can be made a directory: it is one, or it is free and the
    directory above accepts a new entry. *)
Definition creatable (fs : gmap path node) (q : path) : bool :=
  match fs !! q with
  | Some Dir => true
  | Some (File _) => false
  | None => may_create (parent q)
  end.

(** With a directory above, no recursion happens: the path is a
    directory already, or is in the way, or gets created. *)
Definition mkdir_here (p : path) (w : world) : outcome unit :=
  match files w !! p with
  | Some Dir => Returned tt w
  | Some (File _) => Raised FileExistsError w
  | None =>
      if may_create (parent p)
      then Returned tt {| files := <[p:=Dir]> (files w); stdout := stdout w |}
      else Raised PermissionError w
  end.

Definition recorded (base : path) (d : string) : option string :=
  str <$> relative_to (base // d) (parent base).

Definition entry_ok (fs : gmap path node) (base : path) (d : string) : bool :=
  forallb (creatable fs) (prefixes (base // d)) &&
  match relative_to (base // d) (parent base) with
  | Some _ => true
  | None => false
  end.

(** * Outcomes *)

Lemma returned_Some {A} (o : outcome A) a :
  returned o = Some a → o = Returned a (world_of o).
Proof. destruct o; simpl; congruence. Qed.

Lemma raised_Some {A} (o : outcome A) e :
  raised o = Some e → o = Raised e (world_of o).
Proof. destruct o; simpl; congruence. Qed.

(** * Paths and their ancestors *)

Lemma parent_snoc (p : path) x : parent (p ++ [x]) = p.
Proof. apply removelast_last. Qed.

Lemma parent_reverse_cons x (rp : list string) :
  parent (reverse (x :: rp)) = reverse rp.
Proof. by rewrite reverse_cons, parent_snoc. Qed.

Lemma prefix_snoc_iff (q l : path) x :
  q `prefix_of` l ++ [x] ↔ q = l ++ [x] ∨ q `prefix_of` l.
Proof.
  split.
  - intros [k Hk]. destruct k as [|y k _] using rev_ind.
    + left. by rewrite app_nil_r in Hk.
    + right. rewrite app_assoc in Hk.
      apply app_inj_tail in Hk as [-> _]. by exists k.
  - intros [->|Hq]; [done | by apply prefix_app_r].
Qed.

Lemma elem_of_chain rp q :
  q ∈ chain rp ↔ q ≠ [] ∧ q `prefix_of` reverse rp.
Proof.
  induction rp as [|x rp IH]; simpl.
  - split; [by intros ?%elem_of_nil |].
    intros [Hne Hq]. by apply prefix_nil_inv in Hq.
  - rewrite elem_of_cons, IH, reverse_cons, prefix_snoc_iff.
    split.
    + intros [->|[? ?]]; [|by auto].
      split; [|by left]. by destruct (reverse rp).
    + intros [? [?|?]]; auto.
Qed.

Lemma elem_of_prefixes p q :
  q ∈ prefixes p ↔ q ≠ [] ∧ q `prefix_of` p.
Proof. unfold prefixes. by rewrite elem_of_chain, reverse_involutive. Qed.

(** * Path resolution *)

Lemma stat_rev_Dir fs rp :
  stat_rev fs rp = inl Dir ↔ ∀ q, q ∈ chain rp → fs !! q = Some Dir.
Proof.
  induction rp as [|x rp IH]; simpl.
  - split; [by intros _ q ?%elem_of_nil | done].
  - split.
    + intros Hs q [->|Hq]%elem_of_cons.
      * destruct (stat_rev fs rp) as [[]|]; try done.
        destruct (fs !! reverse (x :: rp)); by simplify_eq.
      * apply IH; [|done].
        by destruct (stat_rev fs rp) as [[]|].
    + intros Hall.
      rewrite (proj2 IH) by (intros q ?; apply Hall; by right).
      by rewrite (Hall (reverse (x :: rp))) by left.
Qed.

Lemma stat_rev_blocked fs rp :
  (∃ d, stat_rev fs rp = inl (File d)) ∨
  stat_rev fs rp = inr NotADirectoryError →
  ∃ q d, q ∈ chain rp ∧ fs !! q = Some (File d).
Proof.
  induction rp as [|x rp IH]; simpl.
  - by intros [[d ?]|?].
  - destruct (stat_rev fs rp) as [[d|]|e] eqn:Hs.
    + intros _. destruct IH as (q & d' & ? & ?); [by eauto|].
      exists q, d'. split; [by right | done].
    + destruct (fs !! reverse (x :: rp)) as [n|] eqn:Hl.
      * intros [[d ?]|?]; simplify_eq.
        exists (reverse (x :: rp)), d. split; [by left | done].
      * by intros [[d ?]|?].
    + intros [[d ?]|?]; simplify_eq.
      destruct IH as (q & d' & ? & ?); [by right|].
      exists q, d'. split; [by right | done].
Qed.

Lemma stat_rev_error fs rp e :
  stat_rev fs rp = inr e → e = FileNotFoundError ∨ e = NotADirectoryError.
Proof.
  induction rp as [|x rp IH]; simpl; [done|].
  destruct (stat_rev fs rp) as [[d|]|e']; [intros; simplify_eq; auto| |].
  - destruct (fs !! reverse (x :: rp)); intros; simplify_eq; auto.
  - intros; simplify_eq; auto.
Qed.

Lemma stat_rev_mono fs fs' rp n :
  fs ⊆ fs' → stat_rev fs rp = inl n → stat_rev fs' rp = inl n.
Proof.
  intros Hsub. revert n. induction rp as [|x rp IH]; simpl; [done|].
  intros n. destruct (stat_rev fs rp) as [[d|]|e]; try done.
  rewrite (IH Dir) by done.
  destruct (fs !! reverse (x :: rp)) as [n'|] eqn:Hl; [|done].
  intros; simplify_eq. by rewrite (lookup_weaken _ _ _ _ Hl Hsub).
Qed.

Lemma is_dir_mono fs fs' p :
  fs ⊆ fs' → is_dir fs p = true → is_dir fs' p = true.
Proof.
  unfold is_dir, stat. intros Hsub.
  destruct (stat_rev fs (reverse p)) as [[]|] eqn:Hs; try done.
  by rewrite (stat_rev_mono _ _ _ _ Hsub Hs).
Qed.

Lemma is_dir_prefixes fs p :
  is_dir fs p = true ↔ ∀ q, q ∈ prefixes p → fs !! q = Some Dir.
Proof.
  unfold is_dir, stat, prefixes. rewrite <-stat_rev_Dir.
  by destruct (stat_rev fs (reverse p)) as [[]|].
Qed.

(** * The directories a run adds *)

Lemma lookup_dirs_of ps q :
  dirs_of ps !! q = if decide (q ∈ ps) then Some Dir else None.
Proof.
  unfold dirs_of. case_decide as Hq.
  - apply lookup_gset_to_gmap_Some. by rewrite elem_of_list_to_set.
  - apply lookup_gset_to_gmap_None. by rewrite elem_of_list_to_set.
Qed.

Lemma lookup_ensured fs ps q :
  (fs ∪ dirs_of ps) !! q =
    match fs !! q with
    | Some n => Some n
    | None => if decide (q ∈ ps) then Some Dir else None
    end.
Proof.
  destruct (fs !! q) as [n|] eqn:Hl.
  - by apply lookup_union_Some_l.
  - by rewrite lookup_union_r, lookup_dirs_of.
Qed.

Lemma ensured_insert fs ps p :
  fs !! p = None → <[p:=Dir]> (fs ∪ dirs_of ps) = fs ∪ dirs_of (p :: ps).
Proof.
  intros Hp. apply map_eq. intros q.
  rewrite lookup_insert, !lookup_ensured.
  case_decide as Hq; [subst q; rewrite Hp|].
  - by rewrite decide_True by left.
  - destruct (fs !! q); [done|].
    destruct (decide (q ∈ ps)) as [Hin|Hin].
    + by rewrite decide_True by (by right).
    + rewrite decide_False; [done|]. by intros [?|?]%elem_of_cons.
Qed.

Lemma ensured_id fs ps :
  (∀ q, q ∈ ps → fs !! q = Some Dir) → fs ∪ dirs_of ps = fs.
Proof.
  intros Hall. apply map_eq. intros q. rewrite lookup_ensured.
  destruct (fs !! q) eqn:Hq; [done|].
  case_decide as Hin; [|done]. by rewrite (Hall q Hin) in Hq.
Qed.

Lemma ensured_mono fs ps ps' :
  ps ⊆ ps' → fs ∪ dirs_of ps ⊆ fs ∪ dirs_of ps'.
Proof.
  intros Hsub. apply map_subseteq_spec. intros q n.
  rewrite !lookup_ensured. destruct (fs !! q); [done|].
  case_decide as Hin; [|done]. by rewrite decide_True by (by apply Hsub).
Qed.

Lemma ensured_app fs ps ps' :
  (fs ∪ dirs_of ps) ∪ dirs_of ps' = fs ∪ dirs_of (ps ++ ps').
Proof.
  apply map_eq. intros q. rewrite !lookup_ensured.
  destruct (fs !! q); [done|].
  destruct (decide (q ∈ ps)) as [Hin|Hin].
  - by rewrite decide_True by (apply elem_of_app; by left).
  - destruct (decide (q ∈ ps')) as [Hin'|Hin'].
    + by rewrite decide_True by (apply elem_of_app; by right).
    + rewrite decide_False; [done|]. by intros [?|?]%elem_of_app.
Qed.

Lemma forallb_elem_of {A} (f : A → bool) l :
  forallb f l = true ↔ ∀ x, x ∈ l → f x = true.
Proof.
  rewrite forallb_forall. by setoid_rewrite list_elem_of_In.
Qed.

Lemma forallb_refuted {A} (f : A → bool) l x :
  x ∈ l → f x = false → forallb f l = false.
Proof.
  intros Hin Hx. destruct (forallb f l) eqn:Hall; [|done].
  by rewrite (proj1 (forallb_elem_of f l) Hall x Hin) in Hx.
Qed.

Lemma creatable_Dir fs q : fs !! q = Some Dir → creatable fs q = true.
Proof. unfold creatable. by intros ->. Qed.

Lemma creatable_File fs q d : fs !! q = Some (File d) → creatable fs q = false.
Proof. unfold creatable. by intros ->. Qed.

(** Where every path of [ps] can be made a directory, the filesystem
    with those directories added has a directory at each of them. *)
Lemma lookup_ensured_creatable fs ps q :
  forallb (creatable fs) ps = true → q ∈ ps →
  (fs ∪ dirs_of ps) !! q = Some Dir.
Proof.
  intros Hall Hq. rewrite lookup_ensured, decide_True by done.
  apply (proj1 (forallb_elem_of _ _) Hall) in Hq.
  unfold creatable in Hq. by destruct (fs !! q) as [[]|].
Qed.

(** * [Path.mkdir] *)

Lemma is_dir_reverse_cons fs x rp :
  stat_rev fs rp = inl Dir →
  is_dir fs (reverse (x :: rp)) =
    match fs !! reverse (x :: rp) with
    | Some Dir => true
    | _ => false
    end.
Proof.
  intros Hs. unfold is_dir, stat. rewrite reverse_involutive. simpl.
  rewrite Hs. by destruct (fs !! reverse (x :: rp)) as [[]|].
Qed.

Lemma mkdir_flat_parent_dir x rp w :
  stat_rev (files w) rp = inl Dir →
  mkdir_flat (reverse (x :: rp)) true w = mkdir_here (reverse (x :: rp)) w.
Proof.
  intros Hs. pose proof (is_dir_reverse_cons _ x _ Hs) as Hd.
  unfold mkdir_flat, mkdir_here, os_mkdir, except_OSError.
  rewrite reverse_involutive, Hs, parent_reverse_cons.
  destruct (files w !! reverse (x :: rp)) as [[]|] eqn:Hl; simpl.
  - by rewrite Hd.
  - by rewrite Hd.
  - destruct (may_create (reverse rp)); simpl; [done|]. by rewrite Hd.
Qed.

Lemma mkdir_rev_parent_dir x rp w :
  stat_rev (files w) rp = inl Dir →
  mkdir_rev (x :: rp) true true w = mkdir_here (reverse (x :: rp)) w.
Proof.
  intros Hs. pose proof (is_dir_reverse_cons _ x _ Hs) as Hd.
  unfold mkdir_rev, mkdir_here, os_mkdir, except_OSError.
  rewrite reverse_involutive, Hs, parent_reverse_cons.
  destruct (files w !! reverse (x :: rp)) as [[]|] eqn:Hl; simpl.
  - by rewrite Hd.
  - by rewrite Hd.
  - destruct (may_create (reverse rp)); simpl; [done|]. by rewrite Hd.
Qed.

(** [mkdir_flat] is [Path.mkdir] at [parents=False]. *)
Lemma mkdir_rev_flat rp exist_ok w :
  mkdir_rev rp false exist_ok w = mkdir_flat (reverse rp) exist_ok w.
Proof.
  unfold mkdir_flat.
  destruct rp as [|x rp]; simpl.
  - by destruct (os_mkdir (reverse []) w) as [|[]].
  - by destruct (os_mkdir (reverse (x :: rp)) w) as [|[]].
Qed.

Lemma mkdir_flat_eq p exist_ok w :
  mkdir p false exist_ok w = mkdir_flat p exist_ok w.
Proof. unfold mkdir. by rewrite mkdir_rev_flat, reverse_involutive. Qed.

(** With a file on the way to the directory above, [os.mkdir] raises
    [NotADirectoryError], which the handler lets through. *)
Lemma mkdir_rev_parent_blocked x rp w :
  (∃ d, stat_rev (files w) rp = inl (File d)) ∨
  stat_rev (files w) rp = inr NotADirectoryError →
  mkdir_rev (x :: rp) true true w = Raised NotADirectoryError w.
Proof.
  intros Hs.
  assert (is_dir (files w) (reverse (x :: rp)) = false) as Hd.
  { unfold is_dir, stat. rewrite reverse_involutive. simpl.
    by destruct Hs as [[d ->]| ->]. }
  unfold mkdir_rev, os_mkdir, except_OSError.
  rewrite reverse_involutive.
  destruct Hs as [[d ->]| ->]; simpl; by rewrite Hd.
Qed.

(** With a part of the way missing, the ancestors are created first. *)
Lemma mkdir_rev_parent_missing x rp w :
  stat_rev (files w) rp = inr FileNotFoundError →
  mkdir_rev (x :: rp) true true w =
    match mkdir_rev rp true true w with
    | Returned _ w' => mkdir_flat (reverse (x :: rp)) true w'
    | Raised e w' => Raised e w'
    end.
Proof.
  intros Hs. simpl. unfold os_mkdir at 1.
  by rewrite reverse_involutive, Hs.
Qed.

Lemma ensured_absorb fs ps p :
  fs !! p = Some Dir → fs ∪ dirs_of (p :: ps) = fs ∪ dirs_of ps.
Proof.
  intros Hp. apply map_eq. intros q. rewrite !lookup_ensured.
  destruct (fs !! q) eqn:Hq; [done|].
  destruct (decide (q ∈ ps)) as [Hin|Hin].
  - by rewrite decide_True by (by right).
  - rewrite decide_False; [done|].
    intros [->|?]%elem_of_cons; [by rewrite Hp in Hq | done].
Qed.

Lemma reverse_cons_not_in_chain x rp : reverse (x :: rp) ∉ chain rp.
Proof.
  rewrite elem_of_chain, reverse_cons. intros [_ Hp].
  by apply prefix_snoc_not in Hp.
Qed.

Lemma world_eta w : {| files := files w; stdout := stdout w |} = w.
Proof. by destruct w. Qed.

(** The outcome of [mkdir(parents=True, exist_ok=True)]: it returns
    exactly when the path and each of its ancestors can be made a
    directory, and then leaves all of them directories; otherwise it
    raises an [OSError], having at most added some of them. *)
Lemma mkdir_rev_spec rp w :
  if forallb (creatable (files w)) (chain rp)
  then mkdir_rev rp true true w =
         Returned tt {| files := files w ∪ dirs_of (chain rp);
                        stdout := stdout w |}
  else ∃ e w', mkdir_rev rp true true w = Raised e w' ∧
         is_OSError e = true ∧ stdout w' = stdout w ∧
         files w ⊆ files w' ∧ files w' ⊆ files w ∪ dirs_of (chain rp).
Proof.
  revert w. induction rp as [|x rp IH]; intros w.
  { simpl. rewrite ensured_id by (by intros q ?%elem_of_nil).
    by rewrite world_eta. }
  assert (∀ e, is_OSError e = true →
    ∃ e' w', Raised (A:=unit) e w = Raised e' w' ∧ is_OSError e' = true ∧
      stdout w' = stdout w ∧ files w ⊆ files w' ∧
      files w' ⊆ files w ∪ dirs_of (chain (x :: rp))) as Hstuck.
  { intros e He. exists e, w. split_and!; try done.
    apply map_union_subseteq_l. }
  assert ((∃ d, stat_rev (files w) rp = inl (File d)) ∨
          stat_rev (files w) rp = inr NotADirectoryError →
    if forallb (creatable (files w)) (chain (x :: rp))
    then mkdir_rev (x :: rp) true true w =
           Returned tt {| files := files w ∪ dirs_of (chain (x :: rp));
                          stdout := stdout w |}
    else ∃ e w', mkdir_rev (x :: rp) true true w = Raised e w' ∧
           is_OSError e = true ∧ stdout w' = stdout w ∧
           files w ⊆ files w' ∧
           files w' ⊆ files w ∪ dirs_of (chain (x :: rp))) as Hblocked.
  { intros Hs. rewrite (mkdir_rev_parent_blocked _ _ _ Hs).
    destruct (stat_rev_blocked _ _ Hs) as (q & d & Hq & Hl).
    rewrite (forallb_refuted _ _ q); [by apply Hstuck | by right |].
    by apply creatable_File in Hl. }
  destruct (stat_rev (files w) rp) as [[d|]|e] eqn:Hs.
  - apply Hblocked. eauto.
  - rewrite (mkdir_rev_parent_dir _ _ _ Hs).
    pose proof (proj1 (stat_rev_Dir _ _) Hs) as Hdirs.
    assert (forallb (creatable (files w)) (chain rp) = true) as Hall.
    { apply forallb_elem_of. intros q Hq. by apply creatable_Dir, Hdirs. }
    simpl forallb. rewrite Hall, andb_true_r.
    unfold mkdir_here, creatable. rewrite parent_reverse_cons.
    destruct (files w !! reverse (x :: rp)) as [[d|]|] eqn:Hl.
    + by apply Hstuck.
    + simpl chain. rewrite ensured_absorb, ensured_id by done.
      by rewrite world_eta.
    + destruct (may_create (reverse rp)); [|by apply Hstuck].
      simpl chain. by rewrite <-ensured_insert, ensured_id by done.
  - destruct (stat_rev_error _ _ _ Hs) as [->| ->]; [|by apply Hblocked; right].
    rewrite (mkdir_rev_parent_missing _ _ _ Hs).
    specialize (IH w). simpl forallb.
    destruct (forallb (creatable (files w)) (chain rp)) eqn:Hall.
    + rewrite IH, andb_true_r.
      rewrite mkdir_flat_parent_dir; last first.
      { apply stat_rev_Dir. intros q Hq. simpl.
        by apply lookup_ensured_creatable. }
      unfold mkdir_here, creatable. simpl files. simpl stdout.
      rewrite parent_reverse_cons.
      rewrite (lookup_ensured _ _ (reverse (x :: rp))).
      rewrite (decide_False (P:=_ ∈ chain rp))
        by apply reverse_cons_not_in_chain.
      destruct (files w !! reverse (x :: rp)) as [[d|]|] eqn:Hl.
      * eexists _, _. split_and!; try done; simpl.
        -- apply map_union_subseteq_l.
        -- apply ensured_mono. set_solver.
      * simpl chain. by rewrite ensured_absorb.
      * destruct (may_create (reverse rp)).
        -- simpl chain. by rewrite ensured_insert.
        -- eexists _, _. split_and!; try done; simpl.
           ++ apply map_union_subseteq_l.
           ++ apply ensured_mono. set_solver.
    + rewrite andb_false_r.
      destruct IH as (e & w' & -> & ? & ? & ? & ?).
      exists e, w'. split_and!; try done.
      etrans; [done|]. apply ensured_mono. set_solver.
Qed.

Lemma mkdir_spec p w :
  if forallb (creatable (files w)) (prefixes p)
  then mkdir p true true w =
         Returned tt {| files := files w ∪ dirs_of (prefixes p);
                        stdout := stdout w |}
  else ∃ e w', mkdir p true true w = Raised e w' ∧
         is_OSError e = true ∧ stdout w' = stdout w ∧
         files w ⊆ files w' ∧ files w' ⊆ files w ∪ dirs_of (prefixes p).
Proof. apply mkdir_rev_spec. Qed.

(** * The loop *)

Lemma for_each_cons base d dirs created w :
  for_each base (d :: dirs) created w =
    match mkdir (base // d) true true w with
    | Returned _ w' =>
        match relative_to (base // d) (parent base) with
        | None => Raised ValueError w'
        | Some rel => for_each base dirs (created ++ [str rel]) w'
        end
    | Raised e w' => Raised e w'
    end.
Proof.
  simpl. unfold mbind, M_bind, bind.
  destruct (mkdir (base // d) true true w); [|done].
  by destruct (relative_to (base // d) (parent base)).
Qed.

Lemma for_each_app base dirs1 dirs2 created w :
  for_each base (dirs1 ++ dirs2) created w =
    match for_each base dirs1 created w with
    | Returned created' w' => for_each base dirs2 created' w'
    | Raised e w' => Raised e w'
    end.
Proof.
  revert created w. induction dirs1 as [|d dirs1 IH]; intros created w.
  { done. }
  rewrite <-app_comm_cons, !for_each_cons.
  destruct (mkdir (base // d) true true w); [|done].
  by destruct (relative_to (base // d) (parent base)).
Qed.

Lemma needed_cons base d dirs :
  needed base (d :: dirs) = prefixes (base // d) ++ needed base dirs.
Proof. done. Qed.

Lemma creatable_ensured fs ps q :
  forallb (creatable fs) ps = true →
  creatable (fs ∪ dirs_of ps) q = creatable fs q.
Proof.
  intros Hall. unfold creatable at 1. rewrite lookup_ensured.
  destruct (fs !! q) as [n|] eqn:Hl.
  - unfold creatable. by rewrite Hl.
  - case_decide as Hq.
    + symmetry. by apply (proj1 (forallb_elem_of _ _) Hall).
    + unfold creatable. by rewrite Hl.
Qed.

Lemma entry_ok_ensured fs ps base dirs :
  forallb (creatable fs) ps = true →
  forallb (entry_ok (fs ∪ dirs_of ps) base) dirs =
  forallb (entry_ok fs base) dirs.
Proof.
  intros Hall. induction dirs as [|d dirs IH]; [done|]. simpl.
  rewrite IH. f_equal. unfold entry_ok. f_equal.
  induction (prefixes (base // d)) as [|q qs IHq]; [done|]. simpl.
  by rewrite IHq, creatable_ensured.
Qed.

(** The loop returns exactly when every entry can be created and
    recorded; it then has added the needed directories and nothing else.
    Otherwise it raises, having at most added some of them.  Nothing is
    printed either way. *)
Lemma for_each_spec base dirs created w :
  if forallb (entry_ok (files w) base) dirs
  then ∃ recs, mapM (recorded base) dirs = Some recs ∧
         for_each base dirs created w =
           Returned (created ++ recs)
                    {| files := files w ∪ dirs_of (needed base dirs);
                       stdout := stdout w |}
  else ∃ e w', for_each base dirs created w = Raised e w' ∧
         stdout w' = stdout w ∧ files w ⊆ files w' ∧
         files w' ⊆ files w ∪ dirs_of (needed base dirs).
Proof.
  revert created w. induction dirs as [|d dirs IH]; intros created w.
  { exists []. split; [done|]. simpl. unfold ret.
    rewrite ensured_id by (by intros q ?%elem_of_nil).
    by rewrite app_nil_r, world_eta. }
  rewrite for_each_cons, needed_cons. simpl forallb. unfold entry_ok at 1.
  pose proof (mkdir_spec (base // d) w) as Hmk.
  destruct (forallb (creatable (files w)) (prefixes (base // d))) eqn:Hall;
    last first.
  { destruct Hmk as (e & w' & -> & _ & ? & ? & ?). simpl.
    exists e, w'. split_and!; try done.
    etrans; [done|]. apply ensured_mono. set_solver. }
  rewrite Hmk.
  destruct (relative_to (base // d) (parent base)) as [rel|] eqn:Hrel;
    last first.
  { simpl. eexists _, _. split_and!; try done; simpl.
    - apply map_union_subseteq_l.
    - apply ensured_mono. set_solver. }
  simpl.
  specialize (IH (created ++ [str rel])
    {| files := files w ∪ dirs_of (prefixes (base // d));
       stdout := stdout w |}).
  simpl in IH. rewrite entry_ok_ensured in IH by done.
  destruct (forallb (entry_ok (files w) base) dirs).
  - destruct IH as (recs & Hrecs & ->).
    exists (str rel :: recs). split.
    + assert (recorded base d = Some (str rel)) as Hrec
        by (unfold recorded; by rewrite Hrel).
      simpl. by rewrite Hrec, Hrecs.
    + by rewrite ensured_app, <-app_assoc.
  - destruct IH as (e & w' & -> & ? & ? & Hsub).
    exists e, w'. rewrite ensured_app in Hsub. split_and!; try done.
    etrans; [apply map_union_subseteq_l | done].
Qed.

Lemma scaffold_unfold base dirs w :
  scaffold base dirs w =
    match for_each base dirs [] w with
    | Returned created w' =>
        Returned created
          {| files := files w';
             stdout := stdout w' ++ [summary (length created)] |}
    | Raised e w' => Raised e w'
    end.
Proof.
  unfold scaffold, mbind, M_bind, bind.
  by destruct (for_each base dirs [] w).
Qed.

Lemma scaffold_spec base dirs w :
  if forallb (entry_ok (files w) base) dirs
  then ∃ recs, mapM (recorded base) dirs = Some recs ∧
         scaffold base dirs w =
           Returned recs
                    {| files := files w ∪ dirs_of (needed base dirs);
                       stdout := stdout w ++ [summary (length dirs)] |}
  else ∃ e w', scaffold base dirs w = Raised e w' ∧
         stdout w' = stdout w ∧ files w ⊆ files w' ∧
         files w' ⊆ files w ∪ dirs_of (needed base dirs).
Proof.
  rewrite scaffold_unfold.
  pose proof (for_each_spec base dirs [] w) as Hloop.
  destruct (forallb (entry_ok (files w) base) dirs).
  - destruct Hloop as (recs & Hrecs & ->). exists recs. split; [done|].
    simpl. by rewrite (length_mapM _ _ _ Hrecs).
  - destruct Hloop as (e & w' & -> & ? & ? & ?). by exists e, w'.
Qed.

Lemma entry_ok_needed fs base dirs :
  forallb (entry_ok fs base) dirs = true →
  forallb (creatable fs) (needed base dirs) = true.
Proof.
  induction dirs as [|d dirs IH]; [done|]. simpl.
  intros [[Hd _]%andb_true_iff Hdirs]%andb_true_iff.
  rewrite forallb_app, Hd. by apply IH.
Qed.

Lemma elem_of_needed base dirs q :
  q ∈ needed base dirs ↔
  ∃ d, d ∈ dirs ∧ q ≠ [] ∧ q `prefix_of` base // d.
Proof.
  unfold needed. rewrite list_elem_of_bind.
  by setoid_rewrite elem_of_prefixes; split; intros (d & ? & ?); exists d.
Qed.

(** After a loop that returned, every path on the way to an entry is a
    directory. *)
Lemma is_dir_ensured fs base dirs d q :
  forallb (entry_ok fs base) dirs = true →
  d ∈ dirs → q `prefix_of` base // d →
  is_dir (fs ∪ dirs_of (needed base dirs)) q = true.
Proof.
  intros Hok Hd Hq. apply is_dir_prefixes. intros q' [? Hq']%elem_of_prefixes.
  apply lookup_ensured_creatable; [by apply entry_ok_needed|].
  apply elem_of_needed. exists d. split_and!; [done..|]. by etrans.
Qed.

(** * The base directory and the manifest of the script *)

Lemma relative_to_app (l r : path) : relative_to (l ++ r) l = Some r.
Proof.
  induction l as [|c l IH]; simpl; [by destruct r|].
  by rewrite decide_True.
Qed.

Lemma BASE_DIR_eq : BASE_DIR = parent (parent script_file) ++ ["src"].
Proof. done. Qed.

Lemma parent_BASE_DIR : parent BASE_DIR = parent (parent script_file).
Proof. rewrite BASE_DIR_eq. apply parent_snoc. Qed.

Lemma truediv_relative (base : path) d :
  is_absolute d = false → base // d = base ++ parse_parts d.
Proof. unfold truediv. by intros ->. Qed.

Lemma recorded_relative d :
  is_absolute d = false →
  relative_to (BASE_DIR // d) (parent BASE_DIR) =
    Some ("src" :: parse_parts d).
Proof.
  intros Hd. rewrite (truediv_relative _ _ Hd), parent_BASE_DIR.
  rewrite BASE_DIR_eq. by rewrite <-app_assoc, relative_to_app.
Qed.

Lemma recorded_BASE_DIR d :
  is_absolute d = false →
  recorded BASE_DIR d = Some (str ("src" :: parse_parts d)).
Proof. intros Hd. unfold recorded. by rewrite (recorded_relative _ Hd). Qed.

Lemma mapM_recorded dirs :
  Forall (λ d, is_absolute d = false) dirs →
  mapM (recorded BASE_DIR) dirs =
    Some ((λ d, str ("src" :: parse_parts d)) <$> dirs).
Proof.
  induction 1 as [|d dirs Hd _ IH]; [done|]. simpl.
  by rewrite (recorded_BASE_DIR _ Hd), IH.
Qed.

Lemma DIRS_relative : Forall (λ d, is_absolute d = false) DIRS.
Proof. by repeat constructor. Qed.

(** What a run over a manifest of relative entries that returned has
    done. *)
Lemma scaffold_Returned dirs w created w' :
  Forall (λ d, is_absolute d = false) dirs →
  scaffold BASE_DIR dirs w = Returned created w' →
  forallb (entry_ok (files w) BASE_DIR) dirs = true ∧
  created = (λ d, str ("src" :: parse_parts d)) <$> dirs ∧
  w' = {| files := files w ∪ dirs_of (needed BASE_DIR dirs);
          stdout := stdout w ++ [summary (length dirs)] |}.
Proof.
  intros Hrel Hrun. pose proof (scaffold_spec BASE_DIR dirs w) as Hspec.
  destruct (forallb (entry_ok (files w) BASE_DIR) dirs).
  - destruct Hspec as (recs & Hrecs & Hret).
    rewrite (mapM_recorded _ Hrel) in Hrecs. rewrite Hret in Hrun.
    by simplify_eq.
  - destruct Hspec as (e & w'' & Hraised & _). by rewrite Hraised in Hrun.
Qed.

Lemma create_dirs_Returned w created w' :
  create_dirs w = Returned created w' →
  forallb (entry_ok (files w) BASE_DIR) DIRS = true ∧
  created = (λ d, str ("src" :: parse_parts d)) <$> DIRS ∧
  w' = {| files := files w ∪ dirs_of (needed BASE_DIR DIRS);
          stdout := stdout w ++ [summary (length DIRS)] |}.
Proof. apply scaffold_Returned, DIRS_relative. Qed.

(** A run, returned or raised, keeps what was there and adds at most the
    needed directories. *)
Lemma create_dirs_bounds w :
  files w ⊆ files (world_of (create_dirs w)) ∧
  files (world_of (create_dirs w)) ⊆ files w ∪ dirs_of (needed BASE_DIR DIRS).
Proof.
  unfold create_dirs.
  pose proof (scaffold_spec BASE_DIR DIRS w) as Hspec.
  destruct (forallb (entry_ok (files w) BASE_DIR) DIRS).
  - destruct Hspec as (recs & _ & ->). cbn [world_of files].
    split; [apply map_union_subseteq_l | done].
  - by destruct Hspec as (e & w' & -> & _ & ? & ?).
Qed.

Lemma create_dirs_new w p n :
  files w !! p = None →
  files (world_of (create_dirs w)) !! p = Some n →
  n = Dir ∧ p ∈ needed BASE_DIR DIRS.
Proof.
  intros Hp Hp'. destruct (create_dirs_bounds w) as [_ Hnew].
  eapply lookup_weaken in Hp'; [|exact Hnew].
  rewrite lookup_ensured, Hp in Hp'. by case_decide; simplify_eq.
Qed.

(** * Properties of [create_dirs] *)

(** C1 (completeness): after a run of [create_dirs] that returned, for
    every manifest entry [e] the path [BASE_DIR / e] is a directory, and
    so is every leading part of that path (the intermediate segments). *)
Theorem create_dirs_completeness w created w' e :
  create_dirs w = Returned created w' →
  e ∈ DIRS →
  is_dir (files w') (BASE_DIR // e) = true ∧
  ∀ q, q `prefix_of` BASE_DIR // e → is_dir (files w') q = true.
Proof.
  intros (Hok & _ & ->)%create_dirs_Returned He. cbn [files].
  split; [|intros q Hq]; by eapply is_dir_ensured.
Qed.

(** C2 (count): a run that returned wrote exactly one line to standard
    output, the summary line, and the count in it is the length of the
    manifest, 26, whatever the filesystem held before the run. *)
Theorem create_dirs_summary w created w' :
  create_dirs w = Returned created w' →
  stdout w' = stdout w ++ [summary (length DIRS)] ∧
  summary (length DIRS) = "成功创建 26 个目录" ∧
  length DIRS = 26 ∧
  length created = 26.
Proof.
  intros (_ & -> & ->)%create_dirs_Returned. by rewrite length_fmap.
Qed.

(** C3 (result): [create_dirs] returns a list as long as the manifest,
    whose i-th element is the i-th entry's full path taken relative to
    [BASE_DIR.parent]; with this manifest, the entry prefixed with
    ["src/"]. *)
Theorem create_dirs_result w created w' :
  create_dirs w = Returned created w' →
  length created = length DIRS ∧
  (∀ i e, DIRS !! i = Some e →
     ∃ rel, relative_to (BASE_DIR // e) (parent BASE_DIR) = Some rel ∧
            created !! i = Some (str rel)) ∧
  created = String.append "src/" <$> DIRS.
Proof.
  intros (_ & -> & _)%create_dirs_Returned. split_and!.
  - by rewrite length_fmap.
  - intros i e Hi. exists ("src" :: parse_parts e). split.
    + apply recorded_relative.
      by apply (proj1 (Forall_lookup _ _) DIRS_relative i).
    + by rewrite list_lookup_fmap, Hi.
  - by vm_compute.
Qed.

(** C4 (idempotence): a second run, on the world a first run that
    returned left behind, returns too, leaves the filesystem as the first
    run left it, and reports the same count as the first, the length of
    the manifest. *)
Theorem create_dirs_idempotent w created w1 :
  create_dirs w = Returned created w1 →
  ∃ w2, create_dirs w1 = Returned created w2 ∧
        files w2 = files w1 ∧
        stdout w1 = stdout w ++ [summary (length DIRS)] ∧
        stdout w2 = stdout w1 ++ [summary (length DIRS)].
Proof.
  intros (Hok & -> & ->)%create_dirs_Returned.
  pose proof (entry_ok_needed _ _ _ Hok) as Hneeded.
  set (w1 := {| files := files w ∪ dirs_of (needed BASE_DIR DIRS);
                stdout := stdout w ++ [summary (length DIRS)] |}).
  pose proof (scaffold_spec BASE_DIR DIRS w1) as Hspec.
  rewrite (mapM_recorded _ DIRS_relative) in Hspec.
  cbn [files w1] in Hspec. rewrite entry_ok_ensured, Hok in Hspec by done.
  destruct Hspec as (recs & Hrecs & Hrun). simplify_eq.
  eexists. split; [exact Hrun|]. cbn [files stdout]. split_and!; try done.
  apply ensured_id. intros q Hq. by apply lookup_ensured_creatable.
Qed.

(** C8 (frame): whether the run returns or raises, every path that
    existed before is still there with the same node (a file keeps its
    contents), so it resolves as before; whatever is new is a
    directory. *)
Theorem create_dirs_frame w :
  files w ⊆ files (world_of (create_dirs w)) ∧
  (∀ p n, files w !! p = Some n →
          files (world_of (create_dirs w)) !! p = Some n) ∧
  (∀ p n, stat (files w) p = inl n →
          stat (files (world_of (create_dirs w))) p = inl n) ∧
  (∀ p n, files w !! p = None →
          files (world_of (create_dirs w)) !! p = Some n → n = Dir).
Proof.
  destruct (create_dirs_bounds w) as [Hsub _].
  split_and!; [done|..].
  - intros p n Hp. by eapply lookup_weaken.
  - intros p n Hp. by eapply stat_rev_mono.
  - intros p n Hp Hp'. by destruct (create_dirs_new w p n).
Qed.

(** C5 (propagation): when the creation of an entry raises, after the
    entries before it were processed, the run raises that same exception
    there and then: the world it leaves is the one the failing creation
    left, the directories of the earlier entries are still in it, the
    later entries are not looked at, and nothing was printed. *)
Theorem create_dirs_aborts w before e after created1 w1 x w2 :
  DIRS = before ++ e :: after →
  for_each BASE_DIR before [] w = Returned created1 w1 →
  mkdir (BASE_DIR // e) true true w1 = Raised x w2 →
  create_dirs w = Raised x w2 ∧
  is_OSError x = true ∧
  stdout w2 = stdout w ∧
  files w ⊆ files w1 ∧ files w1 ⊆ files w2 ∧
  (∀ d, d ∈ before → is_dir (files w2) (BASE_DIR // d) = true).
Proof.
  intros HDIRS Hbefore Hfail.
  pose proof (for_each_spec BASE_DIR before [] w) as Hloop.
  destruct (forallb (entry_ok (files w) BASE_DIR) before) eqn:Hok;
    [|by destruct Hloop as (? & ? & Hr & _); rewrite Hr in Hbefore].
  destruct Hloop as (recs & _ & Hret). rewrite Hret in Hbefore.
  pose proof (mkdir_spec (BASE_DIR // e) w1) as Hmk.
  destruct (forallb (creatable (files w1)) (prefixes (BASE_DIR // e)));
    [by rewrite Hmk in Hfail|].
  destruct Hmk as (x' & w2' & Hr & Hx & Hout & Hsub & _).
  rewrite Hr in Hfail. simplify_eq. cbn [files stdout] in *.
  split_and!; try done.
  - unfold create_dirs. rewrite scaffold_unfold, HDIRS, for_each_app, Hret.
    by rewrite for_each_cons, Hr.
  - apply map_union_subseteq_l.
  - intros d Hd. eapply is_dir_mono; [exact Hsub|].
    by eapply is_dir_ensured.
Qed.

(** C6 (failure scenario): with a plain file at [BASE_DIR / presentation]
    the run raises [NotADirectoryError], an [OSError], at the first
    entry; the filesystem is as before and nothing is printed. *)
Theorem presentation_file_blocks w data :
  stat (files w) (BASE_DIR // "presentation") = inl (File data) →
  create_dirs w = Raised NotADirectoryError w ∧
  is_OSError NotADirectoryError = true ∧
  succeeded (create_dirs w) = false ∧
  stdout (world_of (create_dirs w)) = stdout w.
Proof.
  intros Hfile.
  assert (create_dirs w = Raised NotADirectoryError w) as ->; [|done].
  unfold create_dirs, DIRS. rewrite scaffold_unfold, for_each_cons.
  unfold mkdir.
  replace (BASE_DIR // "presentation/controllers")
    with ((BASE_DIR // "presentation") ++ ["controllers"])
    by (by unfold truediv; simpl; rewrite <-app_assoc).
  rewrite reverse_snoc, mkdir_rev_parent_blocked; [done|]. left. by exists data.
Qed.

(** ** Reordering the manifest *)

Lemma entry_ok_Permutation fs base dirs1 dirs2 :
  dirs1 ≡ₚ dirs2 →
  forallb (entry_ok fs base) dirs1 = forallb (entry_ok fs base) dirs2.
Proof.
  induction 1 as [|d dirs1 dirs2 _ IH|d1 d2 dirs| dirs1 dirs2 dirs3 _ IH1 _ IH2];
    simpl.
  - done.
  - by rewrite IH.
  - by destruct (entry_ok fs base d1), (entry_ok fs base d2).
  - by rewrite IH1.
Qed.

Lemma dirs_of_needed_Permutation base dirs1 dirs2 :
  dirs1 ≡ₚ dirs2 →
  dirs_of (needed base dirs1) = dirs_of (needed base dirs2).
Proof.
  intros Hperm. apply map_eq. intros q. rewrite !lookup_dirs_of.
  assert (q ∈ needed base dirs1 ↔ q ∈ needed base dirs2) as Hiff.
  { rewrite !elem_of_needed. by setoid_rewrite Hperm. }
  destruct (decide (q ∈ needed base dirs1)),
           (decide (q ∈ needed base dirs2)); tauto.
Qed.

Lemma scaffold_Permutation dirs1 dirs2 w created1 w' :
  dirs1 ≡ₚ dirs2 →
  Forall (λ d, is_absolute d = false) dirs2 →
  scaffold BASE_DIR dirs1 w = Returned created1 w' →
  ∃ created2, scaffold BASE_DIR dirs2 w = Returned created2 w' ∧
              created2 ≡ₚ created1.
Proof.
  intros Hperm Hrel2 Hrun.
  assert (Forall (λ d, is_absolute d = false) dirs1) as Hrel1
    by (by rewrite Hperm).
  apply scaffold_Returned in Hrun as (Hok & -> & ->); [|done].
  pose proof (scaffold_spec BASE_DIR dirs2 w) as Hspec.
  rewrite <-(entry_ok_Permutation _ _ _ _ Hperm), Hok in Hspec.
  rewrite (mapM_recorded _ Hrel2) in Hspec.
  destruct Hspec as (recs & ? & ->). simplify_eq.
  eexists. split; [|by rewrite Hperm].
  by rewrite (dirs_of_needed_Permutation _ _ _ Hperm), Hperm.
Qed.

(** C7 (order independence): for every reordering of the manifest, the
    reordered run returns exactly when [create_dirs] does, and then both
    leave the same world, hence the same directories; the recorded paths
    are the same up to their order. *)
Theorem create_dirs_order_independent dirs w :
  dirs ≡ₚ DIRS →
  (∀ created w',
     scaffold BASE_DIR dirs w = Returned created w' →
     ∃ created0, create_dirs w = Returned created0 w' ∧
                 created0 ≡ₚ created) ∧
  (∀ created0 w',
     create_dirs w = Returned created0 w' →
     ∃ created, scaffold BASE_DIR dirs w = Returned created w' ∧
                created ≡ₚ created0).
Proof.
  intros Hperm. split; intros c w' Hrun.
  - by apply (scaffold_Permutation dirs DIRS _ c); [|apply DIRS_relative|].
  - apply (scaffold_Permutation DIRS dirs _ c); [done| |done].
    rewrite Hperm. apply DIRS_relative.
Qed.

(** ** Where the new directories are *)

Lemma prefix_app_cases (p l k : path) :
  p `prefix_of` l ++ k →
  p `prefix_of` l ∨ ∃ k', k' ≠ [] ∧ p = l ++ k' ∧ k' `prefix_of` k.
Proof.
  revert p. induction l as [|c l IH]; intros p; simpl.
  - destruct p as [|c' p]; [left; by apply prefix_nil|].
    right. by exists (c' :: p).
  - destruct p as [|c' p]; [left; by apply prefix_nil|]. intros Hp.
    pose proof (prefix_cons_inv_1 _ _ _ _ Hp) as ->.
    apply prefix_cons_inv_2, IH in Hp as [?|(k' & ? & -> & ?)].
    + left. by apply prefix_cons.
    + right. by exists k'.
Qed.

Lemma created_paths w p :
  files w !! p = None →
  is_Some (files (world_of (create_dirs w)) !! p) →
  ∃ e, e ∈ DIRS ∧ p ≠ [] ∧ p `prefix_of` BASE_DIR // e.
Proof.
  intros Hp [n Hp']. destruct (create_dirs_new w p n) as [_ Hin]; [done..|].
  by apply elem_of_needed in Hin.
Qed.

Lemma is_dir_prefix fs d p :
  is_dir fs d = true → p ≠ [] → p `prefix_of` d → fs !! p = Some Dir.
Proof.
  intros Hd ? ?. apply (proj1 (is_dir_prefixes _ _) Hd).
  by apply elem_of_prefixes.
Qed.

Lemma DIRS_parts :
  Forall (λ e, is_absolute e = false ∧ parse_parts e ≠ [] ∧
               ".." ∉ parse_parts e) DIRS.
Proof. by compute_done. Qed.




(** C10 (manifest safety), amended: every manifest entry is a non-empty
    relative path whose slash-separated components are non-empty and are
    neither [".."] nor ["."], and the 26 entries are pairwise distinct.
    Hence each directory [create_dirs] asks for is [BASE_DIR] followed by
    at least one component, none of them [".."]; the recorded paths of a
    run that returned are pairwise distinct; and a directory a run adds,
    whether the run returns or raises, is strictly inside [BASE_DIR],
    unless [BASE_DIR] did not exist before the run: then [BASE_DIR]
    itself and the missing directories above it are added as well. *)
Theorem manifest_safe w :
  Forall (λ e, e ≠ "" ∧ is_absolute e = false ∧
               ("" ∉ split_on "/" e) ∧ ("." ∉ split_on "/" e) ∧
               (".." ∉ split_on "/" e)) DIRS ∧
  NoDup DIRS ∧ length DIRS = 26 ∧
  (∀ e, e ∈ DIRS →
     ∃ parts, parts ≠ [] ∧ (".." ∉ parts) ∧
              BASE_DIR // e = BASE_DIR ++ parts) ∧
  (∀ created w', create_dirs w = Returned created w' →
     NoDup created ∧ length created = 26) ∧
  (∀ p, files w !! p = None →
        is_Some (files (world_of (create_dirs w)) !! p) →
     (∃ k, k ≠ [] ∧ p = BASE_DIR ++ k) ∨
     (p `prefix_of` BASE_DIR ∧ is_dir (files w) BASE_DIR = false)).
Proof.
  split_and!.
  - by compute_done.
  - by compute_done.
  - done.
  - intros e He.
    pose proof (proj1 (Forall_forall _ _) DIRS_parts e He) as (Hrel & ? & ?).
    exists (parse_parts e). by rewrite (truediv_relative _ _ Hrel).
  - intros created w' (_ & -> & _)%create_dirs_Returned.
    split; [by compute_done | done].
  - intros p Hp Hp'.
    destruct (created_paths w p Hp Hp') as (e & He & Hne & Hpre).
    pose proof (proj1 (Forall_forall _ _) DIRS_parts e He) as (Hrel & _).
    rewrite (truediv_relative _ _ Hrel) in Hpre.
    apply prefix_app_cases in Hpre as [Hpre|(k & Hk & -> & Hpre)].
    + right. split; [done|].
      destruct (is_dir (files w) BASE_DIR) eqn:Hbase; [|done].
      by rewrite (is_dir_prefix _ _ _ Hbase Hne Hpre) in Hp.
    + left. by exists k.
Qed.

(** * Further properties of the run *)

Lemma entry_ok_forallb_needed fs dirs :
  Forall (λ d, is_absolute d = false) dirs →
  forallb (entry_ok fs BASE_DIR) dirs =
  forallb (creatable fs) (needed BASE_DIR dirs).
Proof.
  induction 1 as [|d dirs Hd _ IH]; [done|].
  rewrite needed_cons, forallb_app, <-IH. cbn [forallb]. f_equal.
  unfold entry_ok. by rewrite (recorded_relative _ Hd), andb_true_r.
Qed.

Lemma mkdir_rev_Returned rp w u w1 :
  mkdir_rev rp true true w = Returned u w1 →
  forallb (creatable (files w)) (chain rp) = true ∧
  w1 = {| files := files w ∪ dirs_of (chain rp); stdout := stdout w |}.
Proof.
  intros Hrun. pose proof (mkdir_rev_spec rp w) as Hspec.
  destruct (forallb (creatable (files w)) (chain rp)).
  - rewrite Hspec in Hrun. by simplify_eq.
  - destruct Hspec as (e & w' & Hr & _). by rewrite Hr in Hrun.
Qed.

Lemma mkdir_rev_noop rp w :
  stat_rev (files w) rp = inl Dir → mkdir_rev rp true true w = Returned tt w.
Proof.
  intros Hs. pose proof (proj1 (stat_rev_Dir _ _) Hs) as Hdirs.
  pose proof (mkdir_rev_spec rp w) as Hspec.
  rewrite (proj2 (forallb_elem_of _ _)) in Hspec
    by (intros q Hq; by apply creatable_Dir, Hdirs).
  by rewrite Hspec, ensured_id, world_eta.
Qed.

Lemma for_each_Returned base dirs created w created1 w1 :
  for_each base dirs created w = Returned created1 w1 →
  forallb (entry_ok (files w) base) dirs = true ∧
  w1 = {| files := files w ∪ dirs_of (needed base dirs); stdout := stdout w |}.
Proof.
  intros Hrun. pose proof (for_each_spec base dirs created w) as Hspec.
  destruct (forallb (entry_ok (files w) base) dirs).
  - destruct Hspec as (recs & _ & Hr). rewrite Hr in Hrun. by simplify_eq.
  - destruct Hspec as (e & w' & Hr & _). by rewrite Hr in Hrun.
Qed.

(** A loop that raised did so at one entry, after the entries before it:
    in [mkdir], or in [relative_to] with [ValueError]. *)
Lemma for_each_Raised base dirs created w x w' :
  for_each base dirs created w = Raised x w' →
  ∃ before e after created1 w1,
    dirs = before ++ e :: after ∧
    for_each base before created w = Returned created1 w1 ∧
    (mkdir (base // e) true true w1 = Raised x w' ∨
     (x = ValueError ∧ relative_to (base // e) (parent base) = None)).
Proof.
  revert created w. induction dirs as [|d dirs IH]; intros created w.
  { done. }
  rewrite for_each_cons.
  destruct (mkdir (base // d) true true w) as [u w1|e1 w1] eqn:Hmk.
  - destruct (relative_to (base // d) (parent base)) as [rel|] eqn:Hrel.
    + intros (before & e & after & c1 & w2 & -> & Hbefore & He)%IH.
      exists (d :: before), e, after, c1, w2. split_and!; [done| |done].
      by rewrite for_each_cons, Hmk, Hrel.
    + intros [= <- <-]. exists [], d, dirs, created, w. split_and!; auto.
  - intros [= <- <-]. exists [], d, dirs, created, w. split_and!; auto.
Qed.

(** Why [mkdir(parents=True, exist_ok=True)] raised, and that raising is
    stable: tried again on the world it left, it raises again and changes
    nothing. *)
Lemma mkdir_rev_Raised rp w x w' :
  mkdir_rev rp true true w = Raised x w' →
  (((∃ q data, q ∈ chain rp ∧ files w !! q = Some (File data)) ∧
    (x = FileExistsError ∨ x = NotADirectoryError)) ∨
   ((∃ q, q ∈ chain rp ∧ files w !! q = None ∧
          may_create (parent q) = false) ∧
    x = PermissionError)) ∧
  ∃ x', mkdir_rev rp true true w' = Raised x' w' ∧
        (x' = x ∨ x' = NotADirectoryError).
Proof.
  revert w x w'. induction rp as [|c rp IH]; intros w x w'.
  { by rewrite mkdir_rev_noop. }
  assert (∀ w0,
    (∃ d, stat_rev (files w0) rp = inl (File d)) ∨
    stat_rev (files w0) rp = inr NotADirectoryError →
    ∃ q data, q ∈ chain (c :: rp) ∧ files w0 !! q = Some (File data))
    as Hfile.
  { intros w0 (q & d & Hq & Hl)%stat_rev_blocked.
    exists q, d. split; [by right | done]. }
  assert (∀ w0 y,
    stat_rev (files w0) rp = inl Dir →
    mkdir_here (reverse (c :: rp)) w0 = Raised y w' →
    w0 = w' ∧
    ((∃ data, files w0 !! reverse (c :: rp) = Some (File data)) ∧
     y = FileExistsError ∨
     (files w0 !! reverse (c :: rp) = None ∧
      may_create (parent (reverse (c :: rp))) = false) ∧
     y = PermissionError)) as Hhere.
  { intros w0 y _. unfold mkdir_here.
    destruct (files w0 !! reverse (c :: rp)) as [[d|]|] eqn:Hl.
    - intros [= <- <-]. split; [done|]. left. eauto.
    - done.
    - destruct (may_create (parent (reverse (c :: rp)))) eqn:Hm; [done|].
      intros [= <- <-]. split; [done|]. by right. }
  assert (∀ w0,
    (∃ d, stat_rev (files w0) rp = inl (File d)) ∨
    stat_rev (files w0) rp = inr NotADirectoryError →
    mkdir_rev (c :: rp) true true w0 = Raised x w' →
    (((∃ q data, q ∈ chain (c :: rp) ∧ files w0 !! q = Some (File data)) ∧
      (x = FileExistsError ∨ x = NotADirectoryError)) ∨
     ((∃ q, q ∈ chain (c :: rp) ∧ files w0 !! q = None ∧
            may_create (parent q) = false) ∧
      x = PermissionError)) ∧
    ∃ x', mkdir_rev (c :: rp) true true w' = Raised x' w' ∧
          (x' = x ∨ x' = NotADirectoryError)) as Hblocked.
  { intros w0 Hs. rewrite (mkdir_rev_parent_blocked _ _ _ Hs).
    intros [= <- <-]. split; [left; split; [by apply Hfile | by right]|].
    exists NotADirectoryError. split; [|by left].
    by apply mkdir_rev_parent_blocked. }
  destruct (stat_rev (files w) rp) as [[d|]|e] eqn:Hs.
  - apply Hblocked. eauto.
  - rewrite (mkdir_rev_parent_dir _ _ _ Hs). intros Hrun.
    destruct (Hhere _ _ Hs Hrun) as [-> Hwhy]. split.
    + destruct Hwhy as [[[d Hl] ->]|[[Hl Hm] ->]].
      * left. split; [|by left]. exists (reverse (c :: rp)), d.
        split; [by left | done].
      * right. split; [|done]. exists (reverse (c :: rp)).
        split_and!; [by left | done..].
    + exists x. split; [|by left]. by rewrite (mkdir_rev_parent_dir _ _ _ Hs).
  - destruct (stat_rev_error _ _ _ Hs) as [->| ->]; [|by apply Hblocked; right].
    rewrite (mkdir_rev_parent_missing _ _ _ Hs).
    destruct (mkdir_rev rp true true w) as [u w1|e1 w1] eqn:Hrec.
    + apply mkdir_rev_Returned in Hrec as [Hall ->].
      set (w1 := {| files := files w ∪ dirs_of (chain rp);
                    stdout := stdout w |}).
      assert (stat_rev (files w1) rp = inl Dir) as Hs1.
      { apply stat_rev_Dir. intros q Hq. by apply lookup_ensured_creatable. }
      assert (files w1 !! reverse (c :: rp) = files w !! reverse (c :: rp))
        as Hsame.
      { cbn [files w1]. rewrite lookup_ensured.
        rewrite (decide_False (P:=_ ∈ chain rp))
          by apply reverse_cons_not_in_chain.
        by destruct (files w !! reverse (c :: rp)). }
      rewrite (mkdir_flat_parent_dir _ _ _ Hs1). intros Hrun.
      destruct (Hhere _ _ Hs1 Hrun) as [<- Hwhy]. split.
      * rewrite Hsame in Hwhy.
        destruct Hwhy as [[[d Hl] ->]|[[Hl Hm] ->]].
        -- left. split; [|by left]. exists (reverse (c :: rp)), d.
           split; [by left | done].
        -- right. split; [|done]. exists (reverse (c :: rp)).
           split_and!; [by left | done..].
      * exists x. split; [|by left].
        by rewrite (mkdir_rev_parent_dir _ _ _ Hs1).
    + intros [= <- <-]. destruct (IH _ _ _ Hrec) as [Hwhy (x' & Hagain & Hx')].
      split.
      * destruct Hwhy as [[(q & d & Hq & Hl) Hx]|[(q & Hq & Hl & Hm) Hx]].
        -- left. split; [|done]. exists q, d. split; [by right | done].
        -- right. split; [|done]. exists q. split_and!; [by right | done..].
      * destruct (stat_rev (files w1) rp) as [[d|]|e2] eqn:Hs1.
        -- exists NotADirectoryError. split; [|by right].
           apply mkdir_rev_parent_blocked. eauto.
        -- by rewrite (mkdir_rev_noop _ _ Hs1) in Hagain.
        -- destruct (stat_rev_error _ _ _ Hs1) as [->| ->].
           ++ exists x'. split; [|done].
              by rewrite (mkdir_rev_parent_missing _ _ _ Hs1), Hagain.
           ++ exists NotADirectoryError. split; [|by right].
              apply mkdir_rev_parent_blocked. by right.
Qed.

(** A run of [create_dirs] that raised did so in [mkdir], at one entry,
    after the entries before it were processed. *)
Lemma create_dirs_Raised w x w' :
  create_dirs w = Raised x w' →
  ∃ before e after created1 w1,
    DIRS = before ++ e :: after ∧
    for_each BASE_DIR before [] w = Returned created1 w1 ∧
    mkdir (BASE_DIR // e) true true w1 = Raised x w'.
Proof.
  unfold create_dirs. rewrite scaffold_unfold.
  destruct (for_each BASE_DIR DIRS [] w) as [c w1|e1 w1] eqn:Hloop; [done|].
  intros [= <- <-].
  apply for_each_Raised in Hloop
    as (before & e & after & c1 & w2 & HDIRS & Hbefore & [Hmk|[_ Hrel]]).
  { by exists before, e, after, c1, w2. }
  assert (e ∈ DIRS) as He by (rewrite HDIRS; set_solver).
  rewrite recorded_relative in Hrel; [done|].
  by apply (proj1 (Forall_forall _ _) DIRS_relative).
Qed.

(** X1 (obstacles): a plain file on the way to a manifest directory, or a
    path missing there below a directory that takes no new entry, makes
    the run raise, and nothing is printed. *)
Theorem create_dirs_obstacle w e q :
  e ∈ DIRS → q ≠ [] → q `prefix_of` BASE_DIR // e →
  (∃ data, files w !! q = Some (File data)) ∨
  (files w !! q = None ∧ may_create (parent q) = false) →
  succeeded (create_dirs w) = false ∧
  stdout (world_of (create_dirs w)) = stdout w.
Proof.
  intros He Hne Hq Hobstacle.
  assert (forallb (entry_ok (files w) BASE_DIR) DIRS = false) as Hok.
  { rewrite (entry_ok_forallb_needed _ _ DIRS_relative).
    apply (forallb_refuted _ _ q).
    - apply elem_of_needed. by exists e.
    - unfold creatable. by destruct Hobstacle as [[d ->]|[-> ->]]. }
  unfold create_dirs. pose proof (scaffold_spec BASE_DIR DIRS w) as Hspec.
  rewrite Hok in Hspec. by destruct Hspec as (x & w' & -> & ? & _).
Qed.

(** X4 (a failure repeats): run again on the world a failed run left,
    [create_dirs] raises again and changes nothing; the exception is the
    same one, or [NotADirectoryError]. *)
Theorem create_dirs_failure_repeats w x w' :
  create_dirs w = Raised x w' →
  ∃ x', create_dirs w' = Raised x' w' ∧ (x' = x ∨ x' = NotADirectoryError).
Proof.
  intros (before & e & after & c1 & w1 & HDIRS & Hbefore & Hmk)%create_dirs_Raised.
  pose proof Hmk as Hmk0.
  apply mkdir_rev_Raised in Hmk as [_ (x' & Hagain & Hx')].
  exists x'. split; [|done].
  apply for_each_Returned in Hbefore as [Hok ->].
  pose proof (mkdir_spec (BASE_DIR // e)
    {| files := files w ∪ dirs_of (needed BASE_DIR before);
       stdout := stdout w |}) as Hspec.
  destruct (forallb _ (prefixes (BASE_DIR // e))); [by rewrite Hspec in Hmk0|].
  destruct Hspec as (x0 & w0 & Hr & _ & _ & Hsub & _).
  rewrite Hr in Hmk0. simplify_eq. cbn [files] in Hsub.
  assert (∀ q, q ∈ needed BASE_DIR before → files w' !! q = Some Dir) as Hdirs.
  { intros q Hq. eapply lookup_weaken; [|exact Hsub].
    apply lookup_ensured_creatable; [by apply entry_ok_needed | done]. }
  pose proof (for_each_spec BASE_DIR before [] w') as Hloop.
  assert (Forall (λ d, is_absolute d = false) before) as Hrel.
  { apply Forall_forall. intros d Hd.
    apply (proj1 (Forall_forall _ _) DIRS_relative). rewrite HDIRS.
    apply elem_of_app. by left. }
  rewrite (entry_ok_forallb_needed _ _ Hrel) in Hloop.
  rewrite (proj2 (forallb_elem_of _ _)) in Hloop
    by (intros q Hq; by apply creatable_Dir, Hdirs).
  destruct Hloop as (recs & _ & Hloop).
  rewrite (ensured_id _ _ Hdirs), world_eta in Hloop.
  unfold create_dirs. rewrite scaffold_unfold, HDIRS, for_each_app, Hloop.
  rewrite for_each_cons. unfold mkdir at 1. by rewrite Hagain.
Qed.

(** X6 (a populated tree): where every manifest directory exists before
    the run, [create_dirs] adds nothing: whatever its outcome, the
    filesystem is as it was. *)
Theorem create_dirs_populated w :
  (∀ e, e ∈ DIRS → is_dir (files w) (BASE_DIR // e) = true) →
  files (world_of (create_dirs w)) = files w.
Proof.
  intros Hall.
  assert (∀ q, q ∈ needed BASE_DIR DIRS → files w !! q = Some Dir) as Hdirs.
  { intros q (e & He & Hne & Hq)%elem_of_needed.
    by apply (is_dir_prefix _ (BASE_DIR // e)); [apply Hall|..]. }
  destruct (create_dirs_bounds w) as [Hsub Hnew].
  rewrite (ensured_id _ _ Hdirs) in Hnew.
  apply map_eq. intros q.
  destruct (files (world_of (create_dirs w)) !! q) as [n|] eqn:Hq.
  - symmetry. by eapply lookup_weaken.
  - destruct (files w !! q) as [n|] eqn:Hq'; [|done].
    by rewrite (lookup_weaken _ _ _ _ Hq' Hsub) in Hq.
Qed.

Lemma DIRS_recorded :
  Forall (λ e, is_absolute (str ("src" :: parse_parts e)) = false ∧
               parse_parts (str ("src" :: parse_parts e)) =
                 "src" :: parse_parts e ∧
               is_absolute e = false) DIRS.
Proof. by compute_done. Qed.

(** X7 (the result names what was made): each path a run returns, joined
    to [BASE_DIR.parent], is the directory of its manifest entry, which
    exists after the run. *)
Theorem create_dirs_result_resolves w created w' i e s :
  create_dirs w = Returned created w' →
  DIRS !! i = Some e → created !! i = Some s →
  parent BASE_DIR // s = BASE_DIR // e ∧
  is_dir (files w') (parent BASE_DIR // s) = true.
Proof.
  intros (Hok & -> & ->)%create_dirs_Returned Hi Hs.
  rewrite list_lookup_fmap, Hi in Hs. cbn [fmap option_fmap option_map] in Hs.
  apply (inj Some) in Hs as <-.
  assert (e ∈ DIRS) as He by (by eapply list_elem_of_lookup_2).
  pose proof (proj1 (Forall_forall _ _) DIRS_recorded e He) as (Hrel & Hparts & Hrel').
  assert (parent BASE_DIR // str ("src" :: parse_parts e) = BASE_DIR // e) as ->.
  { rewrite (truediv_relative _ _ Hrel), (truediv_relative _ _ Hrel'), Hparts.
    rewrite parent_BASE_DIR, BASE_DIR_eq. by rewrite <-app_assoc. }
  split; [done|]. by eapply is_dir_ensured.
Qed.

End Scaffolder.


(** * The theorems at sample inputs *)

Lemma create_dirs_completeness_witness :
  is_dir (files (world_of (create_dirs sample_script permissive checkout_world)))
         (BASE_DIR sample_script // "domain/auth/entities") = true ∧
  ∀ q, q `prefix_of` BASE_DIR sample_script // "domain/auth/entities" →
       is_dir (files (world_of
                 (create_dirs sample_script permissive checkout_world))) q
       = true.
Proof.
  apply (create_dirs_completeness sample_script permissive checkout_world
           (String.append "src/" <$> DIRS)).
  - apply returned_Some. vm_compute. reflexivity.
  - by compute_done.
Defined.

Lemma create_dirs_summary_witness :
  stdout (world_of (create_dirs sample_script permissive checkout_world)) =
    stdout checkout_world ++ [summary (length DIRS)] ∧
  summary (length DIRS) = "成功创建 26 个目录" ∧
  length DIRS = 26 ∧
  length (String.append "src/" <$> DIRS) = 26.
Proof.
  apply (create_dirs_summary sample_script permissive checkout_world).
  apply returned_Some. vm_compute. reflexivity.
Defined.

Lemma create_dirs_result_witness :
  length (String.append "src/" <$> DIRS) = length DIRS ∧
  (∀ i e, DIRS !! i = Some e →
     ∃ rel, relative_to (BASE_DIR sample_script // e)
                        (parent (BASE_DIR sample_script)) = Some rel ∧
            (String.append "src/" <$> DIRS) !! i = Some (str rel)) ∧
  String.append "src/" <$> DIRS = String.append "src/" <$> DIRS.
Proof.
  apply (create_dirs_result sample_script permissive checkout_world _
           (world_of (create_dirs sample_script permissive checkout_world))).
  apply returned_Some. vm_compute. reflexivity.
Defined.

Lemma create_dirs_idempotent_witness :
  ∃ w2,
    create_dirs sample_script permissive
      (world_of (create_dirs sample_script permissive checkout_world)) =
      Returned (String.append "src/" <$> DIRS) w2 ∧
    files w2 =
      files (world_of (create_dirs sample_script permissive checkout_world)) ∧
    stdout (world_of (create_dirs sample_script permissive checkout_world)) =
      stdout checkout_world ++ [summary (length DIRS)] ∧
    stdout w2 =
      stdout (world_of (create_dirs sample_script permissive checkout_world))
      ++ [summary (length DIRS)].
Proof.
  apply (create_dirs_idempotent sample_script permissive checkout_world).
  apply returned_Some. vm_compute. reflexivity.
Defined.

Lemma create_dirs_aborts_witness :
  create_dirs sample_script permissive mappers_file_world =
    Raised FileExistsError
      (world_of
         (mkdir permissive (BASE_DIR sample_script // "presentation/mappers")
            true true
            (world_of
               (for_each permissive (BASE_DIR sample_script)
                  ["presentation/controllers"; "presentation/dtos"] []
                  mappers_file_world)))) ∧
  is_dir
    (files
       (world_of
          (mkdir permissive (BASE_DIR sample_script // "presentation/mappers")
             true true
             (world_of
                (for_each permissive (BASE_DIR sample_script)
                   ["presentation/controllers"; "presentation/dtos"] []
                   mappers_file_world)))))
    (BASE_DIR sample_script // "presentation/dtos") = true.
Proof.
  destruct (create_dirs_aborts sample_script permissive mappers_file_world
    ["presentation/controllers"; "presentation/dtos"]
    "presentation/mappers" (drop 3 DIRS)
    ["src/presentation/controllers"; "src/presentation/dtos"]
    (world_of
       (for_each permissive (BASE_DIR sample_script)
          ["presentation/controllers"; "presentation/dtos"] []
          mappers_file_world))
    FileExistsError
    (world_of
       (mkdir permissive (BASE_DIR sample_script // "presentation/mappers")
          true true
          (world_of
             (for_each permissive (BASE_DIR sample_script)
                ["presentation/controllers"; "presentation/dtos"] []
                mappers_file_world)))))
    as (Hrun & _ & _ & _ & _ & Hdirs).
  - reflexivity.
  - apply returned_Some. vm_compute. reflexivity.
  - apply raised_Some. vm_compute. reflexivity.
  - split; [exact Hrun|].
    apply (Hdirs "presentation/dtos"). by compute_done.
Defined.

Lemma presentation_file_blocks_witness :
  create_dirs sample_script permissive presentation_file_world =
    Raised NotADirectoryError presentation_file_world ∧
  is_OSError NotADirectoryError = true ∧
  succeeded (create_dirs sample_script permissive presentation_file_world)
    = false ∧
  stdout (world_of
            (create_dirs sample_script permissive presentation_file_world))
    = stdout presentation_file_world.
Proof.
  apply (presentation_file_blocks sample_script permissive
           presentation_file_world "notes").
  vm_compute. reflexivity.
Defined.

Lemma create_dirs_order_independent_witness :
  ∃ created,
    scaffold permissive (BASE_DIR sample_script) (reverse DIRS) checkout_world =
      Returned created
        (world_of (create_dirs sample_script permissive checkout_world)) ∧
    created ≡ₚ String.append "src/" <$> DIRS.
Proof.
  apply (create_dirs_order_independent sample_script permissive
           (reverse DIRS) checkout_world (reverse_Permutation DIRS)).
  apply returned_Some. vm_compute. reflexivity.
Defined.



Lemma manifest_safe_witness :
  NoDup DIRS ∧ NoDup (String.append "src/" <$> DIRS) ∧
  (∀ e, e ∈ DIRS →
     ∃ parts, parts ≠ [] ∧ (".." ∉ parts) ∧
              BASE_DIR sample_script // e = BASE_DIR sample_script ++ parts) ∧
  ((∃ k, k ≠ [] ∧
         sample_base ++ ["presentation"; "controllers"] =
           BASE_DIR sample_script ++ k) ∨
   (sample_base ++ ["presentation"; "controllers"]
      `prefix_of` BASE_DIR sample_script ∧
    is_dir (files mappers_file_world) (BASE_DIR sample_script) = false)).
Proof.
  destruct (manifest_safe sample_script permissive checkout_world)
    as (_ & Hnodup & _ & Hinside & Hcreated & _).
  destruct (manifest_safe sample_script permissive mappers_file_world)
    as (_ & _ & _ & _ & _ & Hadded).
  split_and!; [done| |done|].
  - apply (Hcreated _
      (world_of (create_dirs sample_script permissive checkout_world))).
    apply returned_Some. vm_compute. reflexivity.
  - apply Hadded.
    + vm_compute. reflexivity.
    + vm_compute. by eexists.
Defined.

(** C10 as stated fails where [src] is missing before the run: the run
    returns and has added [BASE_DIR] itself, which is not strictly inside
    [BASE_DIR]. *)
Lemma manifest_safe_counterexample :
  succeeded (create_dirs sample_script permissive checkout_world) = true ∧
  ¬ (∀ p,
       files checkout_world !! p = None →
       files (world_of (create_dirs sample_script permissive checkout_world))
         !! p = Some Dir →
       ∃ k, k ≠ [] ∧ p = BASE_DIR sample_script ++ k).
Proof.
  split; [vm_compute; reflexivity|]. intros Hall.
  destruct (Hall (BASE_DIR sample_script)) as (k & Hk & Heq).
  - vm_compute. reflexivity.
  - vm_compute. reflexivity.
  - apply (f_equal length) in Heq. rewrite length_app in Heq.
    destruct k; [done | simpl in Heq; lia].
Qed.

Lemma create_dirs_obstacle_witness :
  succeeded (create_dirs sample_script permissive mappers_file_world) = false ∧
  stdout (world_of (create_dirs sample_script permissive mappers_file_world))
    = stdout mappers_file_world.
Proof.
  apply (create_dirs_obstacle sample_script permissive mappers_file_world
           "presentation/mappers" (sample_base ++ ["presentation"; "mappers"])).
  - by compute_done.
  - done.
  - exists []. vm_compute. reflexivity.
  - left. exists "notes". vm_compute. reflexivity.
Defined.

Lemma create_dirs_failure_repeats_witness :
  ∃ x',
    create_dirs sample_script permissive
      (world_of (create_dirs sample_script permissive mappers_file_world)) =
      Raised x'
        (world_of (create_dirs sample_script permissive mappers_file_world)) ∧
    (x' = FileExistsError ∨ x' = NotADirectoryError).
Proof.
  apply (create_dirs_failure_repeats sample_script permissive
           mappers_file_world).
  apply raised_Some. vm_compute. reflexivity.
Defined.

Lemma create_dirs_populated_witness :
  files (world_of
           (create_dirs sample_script permissive
              (world_of (create_dirs sample_script permissive checkout_world))))
  = files (world_of (create_dirs sample_script permissive checkout_world)).
Proof.
  apply (create_dirs_populated sample_script permissive).
  intros e He.
  apply (proj1 (forallb_elem_of
    (λ e, is_dir
            (files (world_of
                      (create_dirs sample_script permissive checkout_world)))
            (BASE_DIR sample_script // e)) DIRS)); [|exact He].
  vm_compute. reflexivity.
Defined.

Lemma create_dirs_result_resolves_witness :
  parent (BASE_DIR sample_script) // "src/domain/users" =
    BASE_DIR sample_script // "domain/users" ∧
  is_dir
    (files (world_of (create_dirs sample_script permissive checkout_world)))
    (parent (BASE_DIR sample_script) // "src/domain/users") = true.
Proof.
  apply (create_dirs_result_resolves sample_script permissive checkout_world
           (String.append "src/" <$> DIRS)
           (world_of (create_dirs sample_script permissive checkout_world))
           15 "domain/users" "src/domain/users").
  - apply returned_Some. vm_compute. reflexivity.
  - reflexivity.
  - reflexivity.
Defined.
